(** * MusiCurationDesk: the song list page (frontend/src/App.tsx)

    A shallow embedding of the React component [App]: its four state
    slots, the request built by [fetchSongs], the promise chain that
    settles a request, the [useEffect] that re-fetches when [sortKey]
    changes, and the element tree the component returns.

    Strings are byte strings.  A JavaScript string is a sequence of
    16-bit code units and may hold a surrogate that has no partner; it is
    represented by its generalized UTF-8 encoding: UTF-8 for every
    character and every surrogate pair, and the three bytes
    [ED A0..BF 80..BF] for an unpaired surrogate.  On text without
    unpaired surrogates this is plain UTF-8, the encoding the URL
    serializer works on. *)

From Stdlib Require Import List String Ascii Bool Arith ZArith Lia.
Import ListNotations.
Open Scope string_scope.

(** ** Data model *)

(** [interface Song]: [release_date] is [string | null]. *)
Record Song := mkSong {
  id : Z;
  title : string;
  release_date : option string
}.

(** The four [useState] slots of [App]. *)
Record AppState := mkState {
  songs : list Song;
  error : string;
  keyword : string;
  sortKey : string
}.

(** Initial values passed to [useState]. *)
Definition initial_state : AppState :=
  {| songs := []; error := ""; keyword := ""; sortKey := "id" |}.

Definition setSongs (data : list Song) (s : AppState) : AppState :=
  {| songs := data; error := error s; keyword := keyword s; sortKey := sortKey s |}.

Definition setError (e : string) (s : AppState) : AppState :=
  {| songs := songs s; error := e; keyword := keyword s; sortKey := sortKey s |}.

Definition setKeyword (k : string) (s : AppState) : AppState :=
  {| songs := songs s; error := error s; keyword := k; sortKey := sortKey s |}.

Definition setSortKey (k : string) (s : AppState) : AppState :=
  {| songs := songs s; error := error s; keyword := keyword s; sortKey := k |}.

(** JavaScript truthiness of a string: only the empty string is falsy. *)
Definition truthy (s : string) : bool :=
  match s with
  | EmptyString => false
  | String _ _ => true
  end.

(** ** USVString

    [URLSearchParams.append] is declared with [USVString] arguments: the
    browser converts the JavaScript string it is given, replacing every
    unpaired surrogate by U+FFFD (bytes [EF BF BD]) and leaving the rest
    as it is. *)

Definition is_surrogate_lead (c : ascii) : bool :=
  (nat_of_ascii c =? 237)%nat.                                   (* ED *)

Definition is_surrogate_second (c : ascii) : bool :=
  ((160 <=? nat_of_ascii c) && (nat_of_ascii c <=? 191))%nat.    (* A0..BF *)

Definition is_continuation (c : ascii) : bool :=
  ((128 <=? nat_of_ascii c) && (nat_of_ascii c <=? 191))%nat.    (* 80..BF *)

(** Whether [s] begins with the three bytes of an unpaired surrogate. *)
Definition starts_with_surrogate (s : string) : bool :=
  match s with
  | String c (String c2 (String c3 _)) =>
      is_surrogate_lead c && is_surrogate_second c2 && is_continuation c3
  | _ => false
  end.

Fixpoint has_unpaired_surrogate (s : string) : bool :=
  match s with
  | EmptyString => false
  | String _ rest => starts_with_surrogate s || has_unpaired_surrogate rest
  end.

(** U+FFFD REPLACEMENT CHARACTER in UTF-8. *)
Definition replacement_character : string :=
  String (ascii_of_nat 239) (String (ascii_of_nat 191) (String (ascii_of_nat 189) EmptyString)).

Fixpoint to_USVString (s : string) : string :=
  match s with
  | EmptyString => EmptyString
  | String c rest =>
      if starts_with_surrogate s then
        match rest with
        | String _ (String _ rest') => replacement_character ++ to_USVString rest'
        | _ => String c (to_USVString rest)
        end
      else String c (to_USVString rest)
  end.

(** ** URLSearchParams

    The browser object used by [fetchSongs]: an ordered list of
    name/value pairs with [append] and [toString].  [toString] is the
    application/x-www-form-urlencoded serializer of the URL Standard:
    bytes other than ASCII alphanumerics and [* - . _] are written as
    [%HH] (upper-case hexadecimal), a space as [+], pairs are written
    [name=value] and joined with [&].  [append] stores the [USVString]
    conversions of its arguments. *)
Module URLSearchParams.

Definition t := list (string * string).

Definition empty : t := [].

Definition append (name value : string) (ps : t) : t :=
  (ps ++ [(to_USVString name, to_USVString value)])%list.

Fixpoint get (name : string) (ps : t) : option string :=
  match ps with
  | [] => None
  | (n, v) :: rest => if String.eqb n name then Some v else get name rest
  end.

Definition has (name : string) (ps : t) : bool :=
  match get name ps with Some _ => true | None => false end.

Definition is_unreserved (c : ascii) : bool :=
  let n := nat_of_ascii c in
  (((48 <=? n) && (n <=? 57))          (* 0-9 *)
   || ((65 <=? n) && (n <=? 90))       (* A-Z *)
   || ((97 <=? n) && (n <=? 122))      (* a-z *)
   || (n =? 42) || (n =? 45) || (n =? 46) || (n =? 95))%nat.  (* * - . _ *)

Definition hex_digit (n : nat) : ascii :=
  if (n <? 10)%nat then ascii_of_nat (48 + n) else ascii_of_nat (55 + n).

Definition encode_byte (c : ascii) : string :=
  if is_unreserved c then String c EmptyString
  else if Ascii.eqb c " " then "+"
  else let n := nat_of_ascii c in
       String "%" (String (hex_digit (n / 16)) (String (hex_digit (n mod 16)) EmptyString)).

Fixpoint encode (s : string) : string :=
  match s with
  | EmptyString => EmptyString
  | String c rest => encode_byte c ++ encode rest
  end.

Definition encode_pair (p : string * string) : string :=
  encode (fst p) ++ "=" ++ encode (snd p).

Fixpoint toString (ps : t) : string :=
  match ps with
  | [] => ""
  | [p] => encode_pair p
  | p :: rest => encode_pair p ++ "&" ++ toString rest
  end.

(** The reading direction, [new URLSearchParams(query)]: the
    application/x-www-form-urlencoded parser of the URL Standard.  It is
    not called by [App]; it is what gives a meaning to "the query string
    contains parameter [n] with value [v]".  Decoded bytes are kept as
    they are, which is what the parser of the standard does on the
    escapes of UTF-8 text, the only ones [toString] writes. *)

Definition hex_value (c : ascii) : option nat :=
  let n := nat_of_ascii c in
  if ((48 <=? n) && (n <=? 57))%nat then Some (n - 48)
  else if ((65 <=? n) && (n <=? 70))%nat then Some (n - 55)
  else if ((97 <=? n) && (n <=? 102))%nat then Some (n - 87)
  else None.

Fixpoint decode (s : string) : string :=
  match s with
  | EmptyString => EmptyString
  | String c rest =>
      if Ascii.eqb c "+" then String " " (decode rest)
      else if Ascii.eqb c "%" then
        match rest with
        | String h1 (String h2 rest') =>
            match hex_value h1, hex_value h2 with
            | Some a, Some b => String (ascii_of_nat (16 * a + b)) (decode rest')
            | _, _ => String c (decode rest)
            end
        | _ => String c (decode rest)
        end
      else String c (decode rest)
  end.

(** Pieces of [s] between occurrences of [sep]. *)
Fixpoint split_on (sep : ascii) (s : string) : list string :=
  match s with
  | EmptyString => [EmptyString]
  | String c rest =>
      if Ascii.eqb c sep then EmptyString :: split_on sep rest
      else match split_on sep rest with
           | [] => [String c EmptyString]
           | piece :: pieces => String c piece :: pieces
           end
  end.

(** [s] cut at the first [sep]; the second part is empty without one. *)
Fixpoint cut (sep : ascii) (s : string) : string * string :=
  match s with
  | EmptyString => (EmptyString, EmptyString)
  | String c rest =>
      if Ascii.eqb c sep then (EmptyString, rest)
      else let (a, b) := cut sep rest in (String c a, b)
  end.

Definition parse_piece (piece : string) : string * string :=
  let (n, v) := cut "=" piece in (decode n, decode v).

Definition parse (query : string) : t :=
  map parse_piece (filter truthy (split_on "&" query)).

End URLSearchParams.

(** ** fetchSongs: the request *)

(** Lines 24-31: the query parameters built from the current state. *)
Definition build_params (kw sk : string) : URLSearchParams.t :=
  let params := URLSearchParams.empty in
  let params := if truthy kw then URLSearchParams.append "title_search" kw params else params in
  let params := if truthy sk then URLSearchParams.append "sort_by" sk params else params in
  params.

Definition songs_endpoint : string := "http://127.0.0.1:8000/songs/".

(** Line 34: the template literal passed to [fetch]. *)
Definition fetch_url (kw sk : string) : string :=
  songs_endpoint ++ "?" ++ URLSearchParams.toString (build_params kw sk).

(** [fetch(url)] without an init object is a GET. *)
Inductive Method := GET | HEAD | POST | PUT | DELETE.

Record Request := mkRequest {
  req_method : Method;
  req_url : string
}.

(** The request [fetchSongs] issues when called in a render whose state
    is [s]: the closure reads [keyword] and [sortKey] of that render. *)
Definition fetchSongs (s : AppState) : Request :=
  {| req_method := GET; req_url := fetch_url (keyword s) (sortKey s) |}.

(** The part of a request URL after the first [?]. *)
Definition query_of (url : string) : string := snd (URLSearchParams.cut "?" url).

(** The part of a request URL before the first [?]. *)
Definition resource_of (url : string) : string := fst (URLSearchParams.cut "?" url).

(** ** fetchSongs: the promise chain *)

(** A settled promise. *)
Inductive Promise (A : Type) : Type :=
| Fulfilled (a : A)
| Rejected (reason : string).
Arguments Fulfilled {A} a.
Arguments Rejected {A} reason.

(** [p.then(f)]: a rejection skips [f]; what [f] returns (or throws) is
    the new promise. *)
Definition then_ {A B : Type} (p : Promise A) (f : A -> Promise B) : Promise B :=
  match p with
  | Fulfilled a => f a
  | Rejected e => Rejected e
  end.

(** [p.catch(h)]: a rejection is handled by [h]. *)
Definition catch_ {A : Type} (p : Promise A) (h : string -> A) : Promise A :=
  match p with
  | Fulfilled a => Fulfilled a
  | Rejected e => Fulfilled (h e)
  end.

(** What the promise chain sees of a [Response]: its [ok] flag and the
    outcome of [response.json()]. *)
Record Response := mkResponse {
  ok : bool;
  json : Promise (list Song)
}.

Definition fetch_error_text : string := "データの取得に失敗しました".

(** Lines 35-38. *)
Definition on_response (response : Response) : Promise (list Song) :=
  if negb (ok response) then Rejected "Network response was not ok"
  else json response.

(** Lines 39-43; the callback is represented by the state update it makes. *)
Definition on_data (data : list Song) : Promise (AppState -> AppState) :=
  Fulfilled (fun s => setError "" (setSongs data s)).

(** Lines 44-47. *)
Definition on_error (err : string) : AppState -> AppState :=
  setError fetch_error_text.

Definition chain (p : Promise Response) : Promise (AppState -> AppState) :=
  catch_ (then_ (then_ p on_response) on_data) on_error.

(** The state after the promise returned by [fetch] has settled as [p]
    and the chain has run. *)
Definition settle (p : Promise Response) (s : AppState) : AppState :=
  match chain p with
  | Fulfilled update => update s
  | Rejected _ => s
  end.

(** A fetch fails when the network call rejects or the status is not a
    success; it succeeds when the status is a success and the body parses. *)
Definition fetch_failed (p : Promise Response) : bool :=
  match p with
  | Rejected _ => true
  | Fulfilled r => negb (ok r)
  end.

Definition fetch_succeeded (p : Promise Response) : option (list Song) :=
  match p with
  | Fulfilled r => if ok r then
                     match json r with Fulfilled data => Some data | Rejected _ => None end
                   else None
  | Rejected _ => None
  end.

(** ** The component in its environment

    The page is driven by browser events.  Each event runs a handler of
    [App]; React then renders again and runs the effect of lines 51-53
    when its dependency [sortKey] differs from the one of the previous
    render.  Requests that were issued and have not settled are kept with
    the order in which they were issued. *)

Record World := mkWorld {
  ui : AppState;
  effect_deps : option string;      (* [sortKey] at the last effect check; [None] before mount *)
  inflight : list (nat * Request);  (* issued, not yet settled *)
  next_id : nat                     (* number of requests issued so far *)
}.

(** The values of the three [<option>] elements of the [<select>]. *)
Inductive SortOption := ById | ByReleaseDate | ByTitle.

Definition option_value (o : SortOption) : string :=
  match o with
  | ById => "id"
  | ByReleaseDate => "release_date"
  | ByTitle => "title"
  end.

Inductive Event :=
| InputChange (value : string)      (* line 76: typing in the search box *)
| SearchClick                       (* line 82: the search button *)
| SelectChange (o : SortOption)     (* line 92: picking a sort order; the value of
                                       a select is the value of one of its options *)
| Settled (rid : nat) (p : Promise Response).  (* a fetch promise settles *)

Definition set_ui (s : AppState) (w : World) : World :=
  {| ui := s; effect_deps := effect_deps w; inflight := inflight w; next_id := next_id w |}.

(** Calling [fetchSongs] in the current render. *)
Definition call_fetchSongs (w : World) : World * list Request :=
  let r := fetchSongs (ui w) in
  ({| ui := ui w; effect_deps := effect_deps w;
      inflight := (inflight w ++ [(next_id w, r)])%list;
      next_id := S (next_id w) |}, [r]).

Definition pending (rid : nat) (w : World) : bool :=
  existsb (fun e => Nat.eqb (fst e) rid) (inflight w).

Definition remove_pending (rid : nat) (w : World) : World :=
  {| ui := ui w; effect_deps := effect_deps w;
     inflight := filter (fun e => negb (Nat.eqb (fst e) rid)) (inflight w);
     next_id := next_id w |}.

Definition handle (w : World) (ev : Event) : World * list Request :=
  match ev with
  | InputChange v => (set_ui (setKeyword v (ui w)) w, [])
  | SearchClick => call_fetchSongs w
  | SelectChange o => (set_ui (setSortKey (option_value o) (ui w)) w, [])
  | Settled rid p =>
      if pending rid w
      then (set_ui (settle p (ui w)) (remove_pending rid w), [])
      else (w, [])
  end.

(** [useEffect(..., [sortKey])]: the effect runs after the first render
    and after a render in which [sortKey] is not the previous one. *)
Definition deps_changed (prev : option string) (cur : string) : bool :=
  match prev with
  | None => true
  | Some p => negb (String.eqb p cur)
  end.

Definition commit (w : World) : World * list Request :=
  let w' := {| ui := ui w; effect_deps := Some (sortKey (ui w));
               inflight := inflight w; next_id := next_id w |} in
  if deps_changed (effect_deps w) (sortKey (ui w))
  then call_fetchSongs w'
  else (w', []).

Definition step (w : World) (ev : Event) : World * list Request :=
  let (w1, out1) := handle w ev in
  let (w2, out2) := commit w1 in
  (w2, (out1 ++ out2)%list).

Definition unmounted : World :=
  {| ui := initial_state; effect_deps := None; inflight := []; next_id := 0 |}.

(** Initial display: first render, then the effect. *)
Definition mount : World * list Request := commit unmounted.

(** The world after mounting and a sequence of events, with every request
    issued on the way, oldest first. *)
Fixpoint run_from (w : World) (sent : list Request) (evs : list Event)
  : World * list Request :=
  match evs with
  | [] => (w, sent)
  | ev :: rest =>
      let (w', out) := step w ev in
      run_from w' (sent ++ out)%list rest
  end.

Definition run (evs : list Event) : World * list Request :=
  run_from (fst mount) (snd mount) evs.

(** A world in which the component is mounted and the last render has
    been committed. *)
Definition committed (w : World) : bool :=
  match effect_deps w with
  | Some d => String.eqb d (sortKey (ui w))
  | None => false
  end.

(** ** Rendering (lines 56-125)

    The element tree returned by [App].  Inline styles are left out;
    event handlers are the events of [handle]. *)

#[warnings="-register-all"]
Inductive Node :=
| Text (s : string)
| Number (n : nat)
| Element (tag : string) (key : option Z) (props : list (string * string))
          (children : list Node).

Definition release_date_fallback : string := "発売日未定".

(** [a || b] on a [string | null] left operand. *)
Definition js_or (a : option string) (b : string) : string :=
  match a with
  | Some s => if truthy s then s else b
  | None => b
  end.

(** Lines 108-121. *)
Definition render_song (song : Song) : Node :=
  Element "li" (Some (id song)) []
    [ Element "div" None [] [ Element "strong" None [] [ Text (title song) ] ];
      Element "div" None [] [ Text (js_or (release_date song) release_date_fallback) ] ].

(** Line 104: [error && <p>{error}</p>]. *)
Definition render_error (e : string) : Node :=
  if truthy e then Element "p" None [] [ Text e ] else Text e.

(** Lines 61-99. *)
Definition render_controls (s : AppState) : Node :=
  Element "div" None []
    [ Element "input" None
        [ ("type", "text"); ("placeholder", "曲名で検索..."); ("value", keyword s) ] [];
      Element "button" None [] [ Text "検索" ];
      Element "span" None [] [ Text "並び順: " ];
      Element "select" None [ ("value", sortKey s) ]
        [ Element "option" None [ ("value", "id") ] [ Text "登録順 (ID)" ];
          Element "option" None [ ("value", "release_date") ] [ Text "発売日が新しい順" ];
          Element "option" None [ ("value", "title") ] [ Text "曲名順 (あいうえお)" ] ] ].

Definition App_view (s : AppState) : Node :=
  Element "div" None []
    [ Element "h1" None [] [ Text "MusiCuration Desk" ];
      render_controls s;
      Element "h2" None []
        [ Text "🎵 楽曲リスト ("; Number (List.length (songs s)); Text "曲)" ];
      render_error (error s);
      Element "ul" None [] (map render_song (songs s)) ].

(** Reading a rendered tree. *)

Definition children_of (n : Node) : list Node :=
  match n with
  | Element _ _ _ cs => cs
  | _ => []
  end.

Definition has_tag (tag : string) (n : Node) : bool :=
  match n with
  | Element t _ _ _ => String.eqb t tag
  | _ => false
  end.

Definition find_child (tag : string) (n : Node) : option Node :=
  find (has_tag tag) (children_of n).

(** The [<li>] entries of the song list. *)
Definition list_entries (view : Node) : list Node :=
  match find_child "ul" view with
  | Some ul => children_of ul
  | None => []
  end.

(** The number shown in the heading. *)
Definition displayed_count (view : Node) : option nat :=
  match find_child "h2" view with
  | Some h2 =>
      match find (fun c => match c with Number _ => true | _ => false end) (children_of h2) with
      | Some (Number n) => Some n
      | _ => None
      end
  | None => None
  end.

(** The text of the red error paragraph, when there is one. *)
Definition displayed_error (view : Node) : option string :=
  match find_child "p" view with
  | Some (Element _ _ _ [ Text e ]) => Some e
  | _ => None
  end.

(** The text in the date column of a list entry. *)
Definition entry_date_text (entry : Node) : option string :=
  match children_of entry with
  | [ _; Element _ _ _ [ Text d ] ] => Some d
  | _ => None
  end.

(** Selects the pairs called [name] in a parameter list. *)
Definition named (name : string) (p : string * string) : bool :=
  String.eqb (fst p) name.

(** Identifiers are handed out in the order of the calls of [fetchSongs]:
    every pending request has an identifier below [next_id], and a new
    request gets [next_id]. *)
Definition ids_below (w : World) : bool :=
  forallb (fun e => Nat.ltb (fst e) (next_id w)) (inflight w).

(** Whether the byte [c] occurs in [s]. *)
Fixpoint occurs (c : ascii) (s : string) : bool :=
  match s with
  | EmptyString => false
  | String d rest => Ascii.eqb d c || occurs c rest
  end.

(** Sample records and worlds used to exercise the theorems. *)
Module Samples.

Definition aria : Song := mkSong 1 "Aria" (Some "2024-01-01").
Definition ballad : Song := mkSong 2 "Ballad" None.
Definition canon : Song := mkSong 3 "Canon" (Some "").

Definition ok_with (data : list Song) : Promise Response :=
  Fulfilled {| ok := true; json := Fulfilled data |}.

Definition server_error : Promise Response :=
  Fulfilled {| ok := false; json := Fulfilled [] |}.

Definition offline : Promise Response := Rejected "Failed to fetch".

(** Mounted, first response shown, then a search typed and clicked:
    request 1 is pending, two songs are displayed. *)
Definition searching : World :=
  fst (run [Settled 0 (ok_with [aria; ballad]); InputChange "ar"; SearchClick]).

(** Mounted, a search typed and clicked before anything came back:
    requests 0 (no filter) and 1 (filter "ar") are both pending. *)
Definition two_pending : World :=
  fst (run [InputChange "ar"; SearchClick]).

End Samples.

(** ** More readers of the rendered tree and of the request log *)

(** The text in the title column of a list entry (line 116). *)
Definition entry_title_text (entry : Node) : option string :=
  match children_of entry with
  | Element _ _ _ [ Element _ _ _ [ Text t ] ] :: _ => Some t
  | _ => None
  end.

(** The React key of a list entry (line 108). *)
Definition entry_key (entry : Node) : option Z :=
  match entry with
  | Element _ k _ _ => k
  | _ => None
  end.

Fixpoint prop_of (name : string) (props : list (string * string)) : option string :=
  match props with
  | [] => None
  | (n, v) :: rest => if String.eqb n name then Some v else prop_of name rest
  end.

(** The [value] of the first [tag] element of the controls area. *)
Definition control_value (tag : string) (view : Node) : option string :=
  match find_child "div" view with
  | Some controls =>
      match find_child tag controls with
      | Some (Element _ _ props _) => prop_of "value" props
      | _ => None
      end
  | None => None
  end.

(** What the search box shows (line 75) and what the select shows (line 91). *)
Definition search_box_value (view : Node) : option string := control_value "input" view.
Definition select_value (view : Node) : option string := control_value "select" view.

(** The characters [encode] can produce. *)
Definition url_safe (c : ascii) : bool :=
  URLSearchParams.is_unreserved c || Ascii.eqb c "+" || Ascii.eqb c "%".

(** The characters of a serialized query: those of [encode] and the two
    separators. *)
Definition query_char (c : ascii) : bool :=
  url_safe c || Ascii.eqb c "=" || Ascii.eqb c "&".

Fixpoint all_chars (f : ascii -> bool) (s : string) : bool :=
  match s with
  | EmptyString => true
  | String c rest => f c && all_chars f rest
  end.

(** The world and the request log after [n] clicks on the search button. *)
Definition click_times (n : nat) (w : World) : World * list Request :=
  run_from w [] (repeat SearchClick n).

(** The one-character text U+D800, a surrogate without a partner. *)
Definition unpaired_surrogate : string :=
  String (ascii_of_nat 237) (String (ascii_of_nat 160) (String (ascii_of_nat 128) EmptyString)).

(** The mounted page after that character was put into the search box. *)
Definition Samples_surrogate_typed : World :=
  fst (step (fst mount) (InputChange unpaired_surrogate)).

(** A page on which a failed fetch is displayed over an earlier list. *)
Definition Samples_failed : World :=
  fst (run [Settled 0 (Samples.ok_with [Samples.aria; Samples.ballad]);
            InputChange "ar"; SearchClick; Settled 1 Samples.server_error]).

(** A success status whose body is not JSON. *)
Definition Samples_bad_json : Response :=
  {| ok := true; json := Rejected "Unexpected token < in JSON" |}.

(** * Properties *)

(** ** The query-string serializer and its parser *)

Module URLFacts.
Import URLSearchParams.

Lemma occurs_app c a b : occurs c (a ++ b) = occurs c a || occurs c b.
Proof.
  induction a as [|d a IH]; simpl; [reflexivity|].
  rewrite IH. now rewrite orb_assoc.
Qed.

Ltac each_byte c :=
  destruct c as [[|] [|] [|] [|] [|] [|] [|] [|]].

Lemma encode_byte_no_amp c : occurs "&" (encode_byte c) = false.
Proof. each_byte c; reflexivity. Qed.

Lemma encode_byte_no_eq c : occurs "=" (encode_byte c) = false.
Proof. each_byte c; reflexivity. Qed.

Lemma encode_no_amp s : occurs "&" (encode s) = false.
Proof.
  induction s as [|c s IH]; simpl; [reflexivity|].
  now rewrite occurs_app, encode_byte_no_amp, IH.
Qed.

Lemma encode_no_eq s : occurs "=" (encode s) = false.
Proof.
  induction s as [|c s IH]; simpl; [reflexivity|].
  now rewrite occurs_app, encode_byte_no_eq, IH.
Qed.

Lemma decode_encode_byte c rest :
  decode (encode_byte c ++ rest) = String c (decode rest).
Proof. each_byte c; reflexivity. Qed.

Lemma decode_encode s : decode (encode s) = s.
Proof.
  induction s as [|c s IH]; simpl; [reflexivity|].
  now rewrite decode_encode_byte, IH.
Qed.

Lemma split_on_without sep a :
  occurs sep a = false -> split_on sep a = [a].
Proof.
  induction a as [|c a IH]; simpl; [reflexivity|].
  intros H. apply orb_false_elim in H as [Hc Ha].
  rewrite Hc, (IH Ha). reflexivity.
Qed.

Lemma split_on_app sep a b :
  occurs sep a = false ->
  split_on sep (a ++ String sep b) = a :: split_on sep b.
Proof.
  induction a as [|c a IH]; simpl.
  - intros _. now rewrite Ascii.eqb_refl.
  - intros H. apply orb_false_elim in H as [Hc Ha].
    rewrite Hc, (IH Ha). reflexivity.
Qed.

Lemma cut_app sep a b :
  occurs sep a = false -> cut sep (a ++ String sep b) = (a, b).
Proof.
  induction a as [|c a IH]; simpl.
  - intros _. now rewrite Ascii.eqb_refl.
  - intros H. apply orb_false_elim in H as [Hc Ha].
    rewrite Hc, (IH Ha). reflexivity.
Qed.

Lemma truthy_app_cons a c b : truthy (a ++ String c b) = true.
Proof. destruct a; reflexivity. Qed.

Lemma encode_pair_no_amp p : occurs "&" (encode_pair p) = false.
Proof.
  unfold encode_pair. rewrite occurs_app, encode_no_amp. simpl.
  apply encode_no_amp.
Qed.

Lemma truthy_encode_pair p : truthy (encode_pair p) = true.
Proof. unfold encode_pair. apply truthy_app_cons. Qed.

Lemma parse_piece_encode_pair p : parse_piece (encode_pair p) = p.
Proof.
  destruct p as [n v]. unfold parse_piece, encode_pair. simpl.
  rewrite (cut_app "=" (encode n) (encode v) (encode_no_eq n)).
  now rewrite !decode_encode.
Qed.

(** Parsing a serialized parameter list gives the list back: names and
    values survive the query string exactly. *)
Lemma parse_toString ps : parse (toString ps) = ps.
Proof.
  unfold parse. induction ps as [|p rest IH]; [reflexivity|].
  destruct rest as [|q rest].
  - simpl toString.
    rewrite (split_on_without _ _ (encode_pair_no_amp p)).
    cbn [filter]. rewrite truthy_encode_pair. cbn [map].
    now rewrite parse_piece_encode_pair.
  - change (toString (p :: q :: rest))
      with (encode_pair p ++ String "&" (toString (q :: rest))).
    rewrite (split_on_app _ _ _ (encode_pair_no_amp p)).
    cbn [filter]. rewrite truthy_encode_pair. cbn [map].
    now rewrite parse_piece_encode_pair, IH.
Qed.

End URLFacts.

(** The query of a URL built by [fetch_url] is the serialized parameters. *)
Lemma query_of_fetch_url kw sk :
  query_of (fetch_url kw sk) = URLSearchParams.toString (build_params kw sk).
Proof. reflexivity. Qed.

Lemma resource_of_fetch_url kw sk :
  resource_of (fetch_url kw sk) = songs_endpoint.
Proof. reflexivity. Qed.

(** The parameters a server reads from the URL are those [fetchSongs] appended. *)
Lemma parse_query_fetch_url kw sk :
  URLSearchParams.parse (query_of (fetch_url kw sk)) = build_params kw sk.
Proof. rewrite query_of_fetch_url. apply URLFacts.parse_toString. Qed.

Lemma truthy_false_iff s : truthy s = false <-> s = "".
Proof. destruct s; simpl; split; congruence. Qed.

Lemma truthy_true_iff s : truthy s = true <-> s <> "".
Proof. destruct s; simpl; split; congruence. Qed.

(** ** The USVString conversion *)

Lemma to_USVString_other c rest :
  starts_with_surrogate (String c rest) = false ->
  to_USVString (String c rest) = String c (to_USVString rest).
Proof.
  intros H.
  change (to_USVString (String c rest))
    with (if starts_with_surrogate (String c rest)
          then match rest with
               | String _ (String _ rest') => replacement_character ++ to_USVString rest'
               | _ => String c (to_USVString rest)
               end
          else String c (to_USVString rest)).
  now rewrite H.
Qed.

(** Text without unpaired surrogates is not changed by the conversion. *)
Lemma to_USVString_well_formed s :
  has_unpaired_surrogate s = false -> to_USVString s = s.
Proof.
  induction s as [|c rest IH]; [reflexivity|].
  intros H.
  change (has_unpaired_surrogate (String c rest))
    with (starts_with_surrogate (String c rest) || has_unpaired_surrogate rest) in H.
  apply orb_false_elim in H as [Hhere Hrest].
  now rewrite (to_USVString_other _ _ Hhere), (IH Hrest).
Qed.

Lemma to_USVString_option_value o : to_USVString (option_value o) = option_value o.
Proof. destruct o; reflexivity. Qed.

Lemma unreserved_not_surrogate_lead c :
  URLSearchParams.is_unreserved c = true -> is_surrogate_lead c = false.
Proof. URLFacts.each_byte c; intros H; try reflexivity; discriminate H. Qed.

Lemma unreserved_no_surrogate s :
  all_chars URLSearchParams.is_unreserved s = true -> has_unpaired_surrogate s = false.
Proof.
  induction s as [|c rest IH]; [reflexivity|].
  intros H. cbn [all_chars] in H. apply andb_true_iff in H as [Hc Hrest].
  change (has_unpaired_surrogate (String c rest))
    with (starts_with_surrogate (String c rest) || has_unpaired_surrogate rest).
  rewrite (IH Hrest), orb_false_r.
  destruct rest as [|c2 [|c3 rest']]; try reflexivity.
  cbn [starts_with_surrogate]. now rewrite (unreserved_not_surrogate_lead _ Hc).
Qed.

Lemma build_params_title_search kw sk :
  URLSearchParams.get "title_search" (build_params kw sk)
  = if truthy kw then Some (to_USVString kw) else None.
Proof.
  unfold build_params. destruct (truthy kw), (truthy sk); try reflexivity.
Qed.

Lemma build_params_sort_by kw sk :
  URLSearchParams.get "sort_by" (build_params kw sk)
  = if truthy sk then Some (to_USVString sk) else None.
Proof.
  unfold build_params. destruct (truthy kw), (truthy sk); try reflexivity.
Qed.

(** ** The promise chain *)

Lemma settle_rejected reason s :
  settle (Rejected reason) s = setError fetch_error_text s.
Proof. reflexivity. Qed.

Lemma settle_not_ok response s :
  ok response = false ->
  settle (Fulfilled response) s = setError fetch_error_text s.
Proof. intros H. unfold settle, chain, on_response. simpl. now rewrite H. Qed.

Lemma settle_bad_json response reason s :
  ok response = true -> json response = Rejected reason ->
  settle (Fulfilled response) s = setError fetch_error_text s.
Proof.
  intros Hok Hjson. unfold settle, chain, on_response. simpl.
  now rewrite Hok, Hjson.
Qed.

Lemma settle_failed p s :
  fetch_failed p = true -> settle p s = setError fetch_error_text s.
Proof.
  destruct p as [response|reason]; simpl; intros H.
  - apply settle_not_ok. now apply negb_true_iff.
  - apply settle_rejected.
Qed.

Lemma settle_succeeded p data s :
  fetch_succeeded p = Some data -> settle p s = setError "" (setSongs data s).
Proof.
  destruct p as [response|reason]; simpl; [|discriminate].
  unfold settle, chain, on_response. simpl.
  destruct (ok response); simpl; [|discriminate].
  destruct (json response) as [d|e]; simpl; [|discriminate].
  intros [= ->]. reflexivity.
Qed.

(** The chain never touches the search box or the sort selection. *)
Lemma settle_keeps_controls p s :
  keyword (settle p s) = keyword s /\ sortKey (settle p s) = sortKey s.
Proof.
  unfold settle, chain, on_response.
  destruct p as [response|reason]; simpl; [|auto].
  destruct (ok response); simpl; [|auto].
  destruct (json response); simpl; auto.
Qed.

(** ** Rendering and the effect *)

Lemma commit_ui w : ui (fst (commit w)) = ui w.
Proof. unfold commit. destruct (deps_changed _ _); reflexivity. Qed.

Lemma commit_committed w : committed (fst (commit w)) = true.
Proof.
  unfold commit, committed.
  destruct (deps_changed _ _); simpl; apply String.eqb_refl.
Qed.

(** With [sortKey] as it was at the previous render the effect is skipped. *)
Lemma commit_idle w : committed w = true -> commit w = (w, []).
Proof.
  unfold committed, commit. destruct w as [s deps fl n]. simpl.
  destruct deps as [d|]; [|discriminate].
  intros H. unfold deps_changed. rewrite H. simpl.
  apply String.eqb_eq in H. now subst d.
Qed.

(** With another [sortKey] it runs [fetchSongs] once, in the new render. *)
Lemma commit_fires w :
  deps_changed (effect_deps w) (sortKey (ui w)) = true ->
  snd (commit w) = [fetchSongs (ui w)]
  /\ inflight (fst (commit w)) = (inflight w ++ [(next_id w, fetchSongs (ui w))])%list.
Proof. unfold commit. intros ->. split; reflexivity. Qed.

Lemma step_ui w ev : ui (fst (step w ev)) = ui (fst (handle w ev)).
Proof.
  unfold step. destruct (handle w ev) as [w1 out1].
  pose proof (commit_ui w1) as H. destruct (commit w1) as [w2 out2].
  exact H.
Qed.

Lemma step_committed w ev : committed (fst (step w ev)) = true.
Proof.
  unfold step. destruct (handle w ev) as [w1 out1].
  pose proof (commit_committed w1) as H. destruct (commit w1) as [w2 out2].
  exact H.
Qed.

Lemma committed_set_ui s w :
  committed w = true -> sortKey s = sortKey (ui w) ->
  committed (set_ui s w) = true.
Proof. unfold committed. simpl. now intros H ->. Qed.

Lemma step_idle w ev w1 :
  handle w ev = (w1, []) -> committed w1 = true -> step w ev = (w1, []).
Proof. intros Hh Hc. unfold step. now rewrite Hh, (commit_idle _ Hc). Qed.

Lemma step_InputChange w v :
  committed w = true ->
  step w (InputChange v) = (set_ui (setKeyword v (ui w)) w, []).
Proof. intros Hc. apply step_idle; [reflexivity|]. now apply committed_set_ui. Qed.

Lemma step_SearchClick w :
  committed w = true -> step w SearchClick = call_fetchSongs w.
Proof.
  intros Hc. unfold step. simpl handle. unfold call_fetchSongs.
  rewrite commit_idle; [reflexivity | exact Hc].
Qed.

Lemma step_Settled_pending w rid p :
  committed w = true -> pending rid w = true ->
  step w (Settled rid p) = (set_ui (settle p (ui w)) (remove_pending rid w), []).
Proof.
  intros Hc Hp. apply step_idle.
  - simpl. now rewrite Hp.
  - apply committed_set_ui; [exact Hc | apply settle_keeps_controls].
Qed.

Lemma step_Settled_ui w rid p :
  pending rid w = true -> ui (fst (step w (Settled rid p))) = settle p (ui w).
Proof. intros Hp. rewrite step_ui. simpl. now rewrite Hp. Qed.

Lemma step_Settled_unknown w rid p :
  committed w = true -> pending rid w = false -> step w (Settled rid p) = (w, []).
Proof. intros Hc Hp. apply step_idle; [simpl; now rewrite Hp | exact Hc]. Qed.

Lemma step_SelectChange_same w o :
  committed w = true -> option_value o = sortKey (ui w) ->
  snd (step w (SelectChange o)) = [] /\ ui (fst (step w (SelectChange o))) = ui w.
Proof.
  intros Hc He.
  assert (Hs : setSortKey (option_value o) (ui w) = ui w)
    by (rewrite He; now destruct (ui w)).
  rewrite (step_idle w (SelectChange o) (set_ui (ui w) w)).
  - split; reflexivity.
  - simpl. now rewrite Hs.
  - destruct w; exact Hc.
Qed.

Lemma step_SelectChange_other w o :
  committed w = true -> option_value o <> sortKey (ui w) ->
  snd (step w (SelectChange o)) = [fetchSongs (setSortKey (option_value o) (ui w))]
  /\ ui (fst (step w (SelectChange o))) = setSortKey (option_value o) (ui w).
Proof.
  intros Hc Hne. unfold step. simpl handle.
  set (w1 := set_ui _ w).
  assert (Hd : deps_changed (effect_deps w1) (sortKey (ui w1)) = true).
  { unfold committed in Hc. subst w1. simpl.
    destruct (effect_deps w) as [d|]; [|reflexivity]. simpl.
    apply String.eqb_eq in Hc. subst d.
    apply negb_true_iff, String.eqb_neq. congruence. }
  pose proof (commit_fires w1 Hd) as [Hout _].
  pose proof (commit_ui w1) as Hui.
  destruct (commit w1) as [w2 out2]. simpl in *. now subst out2.
Qed.

(** [pending] after a settling of another request. *)
Lemma pending_remove_other i j s w :
  i <> j -> pending i (set_ui s (remove_pending j w)) = pending i w.
Proof.
  intros Hne. unfold pending. simpl.
  induction (inflight w) as [|[k r] l IH]; [reflexivity|].
  simpl. destruct (Nat.eqb_spec k j) as [->|Hkj]; simpl.
  - rewrite IH. destruct (Nat.eqb_spec j i); [congruence | reflexivity].
  - now rewrite IH.
Qed.


(** ** What the rendered tree shows *)

Lemma list_entries_App_view s :
  list_entries (App_view s) = map render_song (songs s).
Proof.
  unfold list_entries, find_child, App_view, render_error. simpl.
  destruct (truthy (error s)); reflexivity.
Qed.

Lemma displayed_count_App_view s :
  displayed_count (App_view s) = Some (List.length (songs s)).
Proof. reflexivity. Qed.

Lemma displayed_error_App_view s :
  displayed_error (App_view s) = if truthy (error s) then Some (error s) else None.
Proof.
  unfold displayed_error, find_child, App_view, render_error. simpl.
  destruct (truthy (error s)); reflexivity.
Qed.

Lemma entry_date_text_render_song song :
  entry_date_text (render_song song)
  = Some (js_or (release_date song) release_date_fallback).
Proof. reflexivity. Qed.

(** A date that is a non-empty string is shown as it is. *)
Lemma js_or_truthy d fallback :
  d <> "" -> js_or (Some d) fallback = d.
Proof. intros H. simpl. apply truthy_true_iff in H. now rewrite H. Qed.

(** ** Failure path *)

(** C1: when a pending fetch fails (the promise of [fetch] rejects, or the
    response has a non-success status), the songs list after the event is
    the list before it, the error state is the fixed text, and the rendered
    list entries are the same as before. *)
Theorem failed_fetch_keeps_songs (w : World) (rid : nat) (p : Promise Response) :
  pending rid w = true ->
  fetch_failed p = true ->
  let w' := fst (step w (Settled rid p)) in
  songs (ui w') = songs (ui w)
  /\ error (ui w') = fetch_error_text
  /\ list_entries (App_view (ui w')) = list_entries (App_view (ui w))
  /\ displayed_count (App_view (ui w')) = displayed_count (App_view (ui w))
  /\ displayed_error (App_view (ui w')) = Some fetch_error_text.
Proof.
  intros Hp Hf w'. subst w'.
  rewrite (step_Settled_ui _ _ _ Hp), (settle_failed _ _ Hf).
  rewrite !list_entries_App_view, !displayed_count_App_view, displayed_error_App_view.
  simpl. repeat split; reflexivity.
Qed.

Lemma failed_fetch_keeps_songs_witness :
  pending 1 Samples.searching = true
  /\ fetch_failed Samples.server_error = true
  /\ songs (ui (fst (step Samples.searching (Settled 1 Samples.server_error))))
     = [Samples.aria; Samples.ballad]
  /\ error (ui (fst (step Samples.searching (Settled 1 Samples.server_error))))
     = fetch_error_text.
Proof.
  split; [reflexivity|]. split; [reflexivity|].
  destruct (failed_fetch_keeps_songs Samples.searching 1 Samples.server_error)
    as (Hs & He & _); [reflexivity | reflexivity |].
  split; [exact Hs | exact He].
Defined.

(** C6: a rejected network call and a response with a non-success status
    leave the same fixed text in the error state and on the page, whatever
    the rejection reason and whatever the response. *)
Theorem failure_modes_same_text (w : World) (rid : nat)
        (reason : string) (response : Response) :
  pending rid w = true ->
  ok response = false ->
  let rejected := fst (step w (Settled rid (Rejected reason))) in
  let not_ok := fst (step w (Settled rid (Fulfilled response))) in
  error (ui rejected) = fetch_error_text
  /\ error (ui not_ok) = fetch_error_text
  /\ displayed_error (App_view (ui rejected)) = Some fetch_error_text
  /\ displayed_error (App_view (ui not_ok)) = Some fetch_error_text.
Proof.
  intros Hp Hok rejected not_ok. subst rejected not_ok.
  rewrite !(step_Settled_ui _ _ _ Hp), settle_rejected, (settle_not_ok _ _ Hok).
  rewrite !displayed_error_App_view. simpl. repeat split; reflexivity.
Qed.

Lemma failure_modes_same_text_witness :
  pending 0 Samples.two_pending = true
  /\ ok {| ok := false; json := Fulfilled [Samples.aria] |} = false
  /\ error (ui (fst (step Samples.two_pending (Settled 0 Samples.offline))))
     = error (ui (fst (step Samples.two_pending
                    (Settled 0 (Fulfilled {| ok := false; json := Fulfilled [Samples.aria] |}))))).
Proof.
  split; [reflexivity|]. split; [reflexivity|].
  destruct (failure_modes_same_text Samples.two_pending 0 "Failed to fetch"
              {| ok := false; json := Fulfilled [Samples.aria] |})
    as (H1 & H2 & _); [reflexivity | reflexivity |].
  unfold Samples.offline. rewrite H1, H2. reflexivity.
Defined.

(** ** Success path *)

(** C4: when a pending fetch succeeds (success status and a body that
    parses), the songs list becomes the parsed array, whatever it was
    before, and the error state becomes the empty string. *)
Theorem successful_fetch_replaces_songs (w : World) (rid : nat)
        (p : Promise Response) (data : list Song) :
  pending rid w = true ->
  fetch_succeeded p = Some data ->
  let w' := fst (step w (Settled rid p)) in
  songs (ui w') = data /\ error (ui w') = "".
Proof.
  intros Hp Hs w'. subst w'.
  rewrite (step_Settled_ui _ _ _ Hp), (settle_succeeded _ _ _ Hs).
  split; reflexivity.
Qed.

Lemma successful_fetch_replaces_songs_witness :
  pending 1 Samples.searching = true
  /\ fetch_succeeded (Samples.ok_with [Samples.canon]) = Some [Samples.canon]
  /\ songs (ui Samples.searching) = [Samples.aria; Samples.ballad]
  /\ songs (ui (fst (step Samples.searching (Settled 1 (Samples.ok_with [Samples.canon])))))
     = [Samples.canon]
  /\ error (ui (fst (step Samples.searching (Settled 1 (Samples.ok_with [Samples.canon])))))
     = "".
Proof.
  split; [reflexivity|]. split; [reflexivity|]. split; [reflexivity|].
  apply (successful_fetch_replaces_songs Samples.searching 1
           (Samples.ok_with [Samples.canon]) [Samples.canon]); reflexivity.
Defined.



(** ** The date column *)

(** C8: a record whose [release_date] is the empty string and a record
    whose [release_date] is null are both rendered with the fallback
    text in the date column. *)
Theorem empty_release_date_renders_fallback (i : Z) (t : string) :
  entry_date_text (render_song (mkSong i t (Some ""))) = Some release_date_fallback
  /\ entry_date_text (render_song (mkSong i t None)) = Some release_date_fallback
  /\ entry_date_text (render_song (mkSong i t (Some "")))
     = entry_date_text (render_song (mkSong i t None)).
Proof. repeat split; reflexivity. Qed.

(** ** Which events fetch *)

(** C9: typing in the search box issues no request and leaves the songs
    list, the error message, the pending requests and the rendered
    entries as they were; an event that does issue a request is a click
    on the search button or a change of the sort selection to another
    value. *)
Theorem typing_does_not_fetch (w : World) :
  committed w = true ->
  (forall v : string,
      snd (step w (InputChange v)) = []
      /\ songs (ui (fst (step w (InputChange v)))) = songs (ui w)
      /\ error (ui (fst (step w (InputChange v)))) = error (ui w)
      /\ inflight (fst (step w (InputChange v))) = inflight w
      /\ list_entries (App_view (ui (fst (step w (InputChange v)))))
         = list_entries (App_view (ui w))
      /\ displayed_error (App_view (ui (fst (step w (InputChange v)))))
         = displayed_error (App_view (ui w)))
  /\ (forall ev : Event,
         snd (step w ev) <> [] ->
         ev = SearchClick
         \/ exists o, ev = SelectChange o /\ option_value o <> sortKey (ui w)).
Proof.
  intros Hc. split.
  - intros v. rewrite (step_InputChange _ _ Hc). simpl.
    rewrite !list_entries_App_view, !displayed_error_App_view.
    repeat split; reflexivity.
  - intros ev Hout. destruct ev as [v| |o|rid p].
    + now rewrite (step_InputChange _ _ Hc) in Hout.
    + now left.
    + right. exists o. split; [reflexivity|].
      intros He. now destruct (step_SelectChange_same w o Hc He) as [Hnone _].
    + destruct (pending rid w) eqn:Hp.
      * now rewrite (step_Settled_pending _ _ _ Hc Hp) in Hout.
      * now rewrite (step_Settled_unknown _ _ _ Hc Hp) in Hout.
Qed.

Lemma typing_does_not_fetch_witness :
  committed Samples.searching = true
  /\ snd (step Samples.searching (InputChange "aria")) = []
  /\ songs (ui (fst (step Samples.searching (InputChange "aria"))))
     = [Samples.aria; Samples.ballad].
Proof.
  split; [reflexivity|].
  destruct (typing_does_not_fetch Samples.searching) as [Htype _]; [reflexivity|].
  destruct (Htype "aria") as (Hout & Hsongs & _).
  split; [exact Hout | exact Hsongs].
Defined.

(** ** The requests *)

Lemma build_params_only_title_search kw sk :
  filter (named "title_search") (build_params kw sk)
  = if truthy kw then [("title_search", to_USVString kw)] else [].
Proof. unfold build_params. destruct (truthy kw), (truthy sk); reflexivity. Qed.

Lemma build_params_only_sort_by kw sk :
  filter (named "sort_by") (build_params kw sk)
  = if truthy sk then [("sort_by", to_USVString sk)] else [].
Proof. unfold build_params. destruct (truthy kw), (truthy sk); reflexivity. Qed.

Lemma option_value_truthy o : truthy (option_value o) = true.
Proof. destruct o; reflexivity. Qed.

Lemma run_from_extends w sent evs :
  exists more, snd (run_from w sent evs) = (sent ++ more)%list.
Proof.
  revert w sent. induction evs as [|ev evs IH]; intros w sent; simpl.
  - exists []. now rewrite app_nil_r.
  - destruct (step w ev) as [w' out].
    destruct (IH w' (sent ++ out)%list) as [more Hmore].
    exists (out ++ more)%list. now rewrite Hmore, app_assoc.
Qed.

(** Every world reached by [run] is mounted and committed. *)
Lemma run_from_committed w sent evs :
  committed w = true -> committed (fst (run_from w sent evs)) = true.
Proof.
  revert w sent. induction evs as [|ev evs IH]; intros w sent Hc; simpl.
  - exact Hc.
  - pose proof (step_committed w ev) as Hc'.
    destruct (step w ev) as [w' out]. now apply IH.
Qed.

Lemma run_committed evs : committed (fst (run evs)) = true.
Proof. apply run_from_committed. reflexivity. Qed.

(** C2, as the code has it: a click on the search button issues one
    request; read back from its query string, the parameters contain
    [title_search] once, with the text of the search box in which every
    unpaired surrogate is replaced by U+FFFD, hence with exactly the text
    of the search box when it has no unpaired surrogate, when that text
    is not empty, and contain no [title_search] when it is empty. *)
Theorem search_click_title_search (w : World) :
  committed w = true ->
  exists r : Request,
    snd (step w SearchClick) = [r]
    /\ (keyword (ui w) <> "" ->
        filter (named "title_search") (URLSearchParams.parse (query_of (req_url r)))
        = [("title_search", to_USVString (keyword (ui w)))]
        /\ URLSearchParams.get "title_search" (URLSearchParams.parse (query_of (req_url r)))
           = Some (to_USVString (keyword (ui w)))
        /\ (has_unpaired_surrogate (keyword (ui w)) = false ->
            filter (named "title_search") (URLSearchParams.parse (query_of (req_url r)))
            = [("title_search", keyword (ui w))]
            /\ URLSearchParams.get "title_search"
                 (URLSearchParams.parse (query_of (req_url r)))
               = Some (keyword (ui w))))
    /\ (keyword (ui w) = "" ->
        filter (named "title_search") (URLSearchParams.parse (query_of (req_url r))) = []
        /\ URLSearchParams.has "title_search" (URLSearchParams.parse (query_of (req_url r)))
           = false).
Proof.
  intros Hc. exists (fetchSongs (ui w)).
  rewrite (step_SearchClick _ Hc). split; [reflexivity|].
  unfold fetchSongs. simpl req_url. rewrite parse_query_fetch_url.
  unfold URLSearchParams.has.
  rewrite build_params_only_title_search, build_params_title_search.
  split; intros Hk.
  - apply truthy_true_iff in Hk. rewrite Hk.
    split; [reflexivity|]. split; [reflexivity|].
    intros Hwf. rewrite (to_USVString_well_formed _ Hwf). split; reflexivity.
  - apply truthy_false_iff in Hk. rewrite Hk. split; reflexivity.
Qed.

Lemma search_click_title_search_witness :
  committed Samples.searching = true
  /\ keyword (ui Samples.searching) = "ar"
  /\ has_unpaired_surrogate "ar" = false
  /\ exists r : Request,
      snd (step Samples.searching SearchClick) = [r]
      /\ URLSearchParams.get "title_search" (URLSearchParams.parse (query_of (req_url r)))
         = Some "ar".
Proof.
  split; [reflexivity|]. split; [reflexivity|]. split; [reflexivity|].
  destruct (search_click_title_search Samples.searching) as (r & Hout & Hsome & _);
    [reflexivity|].
  exists r. split; [exact Hout|].
  destruct Hsome as (_ & _ & Hexact); [discriminate|].
  destruct Hexact as [_ Hget]; [reflexivity|].
  exact Hget.
Defined.

(** C2 as the claim words it fails: with the unpaired surrogate U+D800 in
    the search box, the one request of a click is
    [...?title_search=%EF%BF%BD&sort_by=id]; its [title_search] reads
    back as U+FFFD, which is not the text of the search box. *)
Lemma search_click_title_search_counterexample :
  committed Samples_surrogate_typed = true
  /\ keyword (ui Samples_surrogate_typed) = unpaired_surrogate
  /\ keyword (ui Samples_surrogate_typed) <> ""
  /\ snd (step Samples_surrogate_typed SearchClick)
     = [ {| req_method := GET;
            req_url := "http://127.0.0.1:8000/songs/?title_search=%EF%BF%BD&sort_by=id" |} ]
  /\ ~ (exists r : Request,
          snd (step Samples_surrogate_typed SearchClick) = [r]
          /\ URLSearchParams.get "title_search"
               (URLSearchParams.parse (query_of (req_url r)))
             = Some (keyword (ui Samples_surrogate_typed))).
Proof.
  split; [reflexivity|]. split; [reflexivity|]. split; [discriminate|].
  split; [reflexivity|].
  intros (r & Hout & Hget).
  assert (E : [r] = [ {| req_method := GET;
                         req_url := "http://127.0.0.1:8000/songs/?title_search=%EF%BF%BD&sort_by=id" |} ])
    by (rewrite <- Hout; reflexivity).
  injection E as ->. vm_compute in Hget. discriminate Hget.
Qed.

(** C3: mounting issues exactly one request, and so does every change of
    the sort selection to another option: a GET to
    http://127.0.0.1:8000/songs/ whose query carries [sort_by] once, with
    the value of the selection now current, which is one of [id],
    [release_date], [title]. *)
Theorem sort_change_issues_one_request :
  (exists r : Request,
      snd mount = [r]
      /\ req_method r = GET
      /\ resource_of (req_url r) = "http://127.0.0.1:8000/songs/"
      /\ filter (named "sort_by") (URLSearchParams.parse (query_of (req_url r)))
         = [("sort_by", sortKey (ui (fst mount)))]
      /\ In (sortKey (ui (fst mount))) ["id"; "release_date"; "title"])
  /\ (forall (w : World) (o : SortOption),
         committed w = true ->
         option_value o <> sortKey (ui w) ->
         exists r : Request,
           snd (step w (SelectChange o)) = [r]
           /\ req_method r = GET
           /\ resource_of (req_url r) = "http://127.0.0.1:8000/songs/"
           /\ filter (named "sort_by") (URLSearchParams.parse (query_of (req_url r)))
              = [("sort_by", option_value o)]
           /\ sortKey (ui (fst (step w (SelectChange o)))) = option_value o
           /\ In (option_value o) ["id"; "release_date"; "title"]).
Proof.
  split.
  - exists (fetchSongs initial_state). repeat split; try reflexivity.
    simpl. auto.
  - intros w o Hc Hne.
    destruct (step_SelectChange_other w o Hc Hne) as [Hout Hui].
    exists (fetchSongs (setSortKey (option_value o) (ui w))).
    split; [exact Hout|]. split; [reflexivity|]. split; [reflexivity|].
    split; [|split].
    + unfold fetchSongs. simpl req_url. rewrite parse_query_fetch_url.
      rewrite build_params_only_sort_by. simpl sortKey.
      now rewrite option_value_truthy, to_USVString_option_value.
    + now rewrite Hui.
    + destruct o; simpl; auto.
Qed.

Lemma sort_change_issues_one_request_witness :
  committed Samples.searching = true
  /\ option_value ByTitle <> sortKey (ui Samples.searching)
  /\ snd (step Samples.searching (SelectChange ByTitle))
     = [ {| req_method := GET;
            req_url := "http://127.0.0.1:8000/songs/?title_search=ar&sort_by=title" |} ].
Proof.
  split; [reflexivity|]. split; [discriminate|].
  destruct (proj2 sort_change_issues_one_request Samples.searching ByTitle)
    as (r & Hout & _); [reflexivity | discriminate |].
  reflexivity.
Defined.

(** C10: the first request of the page is
    GET http://127.0.0.1:8000/songs/?sort_by=id: the sort key starts as
    [id], the search box starts empty, and the query has no
    [title_search]. *)
Theorem first_request_is_sort_by_id :
  sortKey initial_state = "id"
  /\ keyword initial_state = ""
  /\ snd mount
     = [ {| req_method := GET; req_url := "http://127.0.0.1:8000/songs/?sort_by=id" |} ]
  /\ URLSearchParams.parse (query_of "http://127.0.0.1:8000/songs/?sort_by=id")
     = [("sort_by", "id")]
  /\ (forall evs : list Event,
         hd_error (snd (run evs))
         = Some {| req_method := GET;
                   req_url := "http://127.0.0.1:8000/songs/?sort_by=id" |}).
Proof.
  repeat split; try reflexivity.
  intros evs. unfold run.
  destruct (run_from_extends (fst mount) (snd mount) evs) as [more ->].
  reflexivity.
Qed.

(** ** Requests in flight *)

Lemma pending_call_fetchSongs rid w :
  pending rid w = true -> pending rid (fst (call_fetchSongs w)) = true.
Proof.
  intros Hp. unfold call_fetchSongs, pending. simpl.
  rewrite existsb_app. fold (pending rid w). now rewrite Hp.
Qed.

Lemma pending_commit rid w :
  pending rid w = true -> pending rid (fst (commit w)) = true.
Proof.
  intros Hp. unfold commit. destruct (deps_changed _ _).
  - now apply pending_call_fetchSongs.
  - exact Hp.
Qed.

Lemma ids_below_weaken (l : list (nat * Request)) n :
  forallb (fun e => Nat.ltb (fst e) n) l = true ->
  forallb (fun e => Nat.ltb (fst e) (S n)) l = true.
Proof.
  rewrite !forallb_forall. intros H e He.
  specialize (H e He). apply Nat.ltb_lt in H. apply Nat.ltb_lt. lia.
Qed.

Lemma ids_below_call_fetchSongs w :
  ids_below w = true -> ids_below (fst (call_fetchSongs w)) = true.
Proof.
  unfold ids_below, call_fetchSongs. simpl. intros H.
  rewrite forallb_app, (ids_below_weaken _ _ H). simpl.
  rewrite andb_true_r. apply Nat.ltb_lt. lia.
Qed.

Lemma ids_below_filter (f : nat * Request -> bool) l n :
  forallb (fun e => Nat.ltb (fst e) n) l = true ->
  forallb (fun e => Nat.ltb (fst e) n) (filter f l) = true.
Proof.
  rewrite !forallb_forall. intros H e He.
  apply filter_In in He as [He _]. now apply H.
Qed.

Lemma ids_below_step w ev :
  ids_below w = true -> ids_below (fst (step w ev)) = true.
Proof.
  intros H. unfold step.
  assert (H1 : ids_below (fst (handle w ev)) = true).
  { destruct ev as [v| |o|rid p]; simpl; try exact H.
    - now apply ids_below_call_fetchSongs.
    - destruct (pending rid w); [|exact H].
      unfold ids_below. simpl. now apply ids_below_filter. }
  destruct (handle w ev) as [w1 out1]. simpl in H1.
  assert (H2 : ids_below (fst (commit w1)) = true).
  { unfold commit. destruct (deps_changed _ _).
    - now apply ids_below_call_fetchSongs.
    - exact H1. }
  now destruct (commit w1) as [w2 out2].
Qed.

(** C7: nothing cancels or reorders.  A pending request stays pending
    through every event other than its own settling; and when two
    requests are pending and the response to the one issued later
    arrives first, the response to the older one, arriving last, is the
    list that is displayed. *)
Theorem last_arrival_wins :
  (forall (w : World) (ev : Event) (rid : nat),
      pending rid w = true ->
      (forall p, ev <> Settled rid p) ->
      pending rid (fst (step w ev)) = true)
  /\ (forall (w : World) (i_old i_new : nat) (p_old p_new : Promise Response)
             (d_old d_new : list Song),
         pending i_old w = true ->
         pending i_new w = true ->
         i_old < i_new ->
         fetch_succeeded p_old = Some d_old ->
         fetch_succeeded p_new = Some d_new ->
         let w1 := fst (step w (Settled i_new p_new)) in
         let w2 := fst (step w1 (Settled i_old p_old)) in
         songs (ui w1) = d_new
         /\ pending i_old w1 = true
         /\ songs (ui w2) = d_old
         /\ list_entries (App_view (ui w2)) = map render_song d_old).
Proof.
  assert (Hkeep : forall w ev rid,
             pending rid w = true -> (forall p, ev <> Settled rid p) ->
             pending rid (fst (step w ev)) = true).
  { intros w ev rid Hp Hev. unfold step.
    assert (H1 : pending rid (fst (handle w ev)) = true).
    { destruct ev as [v| |o|j p]; simpl; try exact Hp.
      - now apply pending_call_fetchSongs.
      - destruct (pending j w); [|exact Hp]. simpl.
        rewrite pending_remove_other; [exact Hp|].
        intros ->. now apply (Hev p). }
    destruct (handle w ev) as [w1 out1]. simpl in H1.
    pose proof (pending_commit rid w1 H1) as H2.
    now destruct (commit w1) as [w2 out2]. }
  split; [exact Hkeep|].
  intros w i_old i_new p_old p_new d_old d_new Hold Hnew Hlt Hso Hsn w1 w2.
  assert (Hold1 : pending i_old w1 = true).
  { apply Hkeep; [exact Hold|]. intros p [= E]. lia. }
  subst w2. rewrite (step_Settled_ui _ _ _ Hold1), (settle_succeeded _ _ _ Hso).
  subst w1. rewrite (step_Settled_ui _ _ _ Hnew), (settle_succeeded _ _ _ Hsn).
  rewrite list_entries_App_view. repeat split; try reflexivity.
  exact Hold1.
Qed.

Lemma last_arrival_wins_witness :
  pending 0 Samples.two_pending = true
  /\ pending 1 Samples.two_pending = true
  /\ 0 < 1
  /\ map snd (inflight Samples.two_pending)
     = [ {| req_method := GET; req_url := "http://127.0.0.1:8000/songs/?sort_by=id" |};
         {| req_method := GET;
            req_url := "http://127.0.0.1:8000/songs/?title_search=ar&sort_by=id" |} ]
  /\ songs (ui (fst (step (fst (step Samples.two_pending
                                  (Settled 1 (Samples.ok_with [Samples.aria]))))
                          (Settled 0 (Samples.ok_with
                                        [Samples.aria; Samples.ballad; Samples.canon])))))
     = [Samples.aria; Samples.ballad; Samples.canon].
Proof.
  split; [reflexivity|]. split; [reflexivity|]. split; [lia|]. split; [reflexivity|].
  destruct (proj2 last_arrival_wins Samples.two_pending 0 1
              (Samples.ok_with [Samples.aria; Samples.ballad; Samples.canon])
              (Samples.ok_with [Samples.aria])
              [Samples.aria; Samples.ballad; Samples.canon] [Samples.aria])
    as (_ & _ & Hsongs & _);
    [reflexivity | reflexivity | lia | reflexivity | reflexivity |].
  exact Hsongs.
Defined.

(** The pending requests of a running page are numbered in the order of
    their issue. *)
Lemma run_ids_below evs : ids_below (fst (run evs)) = true.
Proof.
  unfold run. generalize (snd mount).
  assert (H : ids_below (fst mount) = true) by reflexivity.
  revert H. generalize (fst mount).
  induction evs as [|ev evs IH]; intros w Hw sent; simpl; [exact Hw|].
  pose proof (ids_below_step w ev Hw) as Hw'.
  destruct (step w ev) as [w' out]. now apply IH.
Qed.


(** * Further properties of the component *)

(** ** Every outcome of the promise chain *)

Lemma pending_step_other w ev rid :
  pending rid w = true ->
  (forall p, ev <> Settled rid p) ->
  pending rid (fst (step w ev)) = true.
Proof.
  intros Hp Hev. unfold step.
  assert (H1 : pending rid (fst (handle w ev)) = true).
  { destruct ev as [v| |o|j p]; simpl; try exact Hp.
    - now apply pending_call_fetchSongs.
    - destruct (pending j w); [|exact Hp]. simpl.
      rewrite pending_remove_other; [exact Hp|].
      intros ->. now apply (Hev p). }
  destruct (handle w ev) as [w1 out1]. simpl in H1.
  pose proof (pending_commit rid w1 H1) as H2.
  now destruct (commit w1) as [w2 out2].
Qed.

(** X1: a response with a success status whose body does not parse as
    JSON is handled like a failure: the list and its rendering stay, and
    the fixed error text is set and shown. *)
Theorem malformed_json_is_a_failure (w : World) (rid : nat)
        (response : Response) (reason : string) :
  pending rid w = true ->
  ok response = true ->
  json response = Rejected reason ->
  let w' := fst (step w (Settled rid (Fulfilled response))) in
  songs (ui w') = songs (ui w)
  /\ error (ui w') = fetch_error_text
  /\ list_entries (App_view (ui w')) = list_entries (App_view (ui w))
  /\ displayed_error (App_view (ui w')) = Some fetch_error_text.
Proof.
  intros Hp Hok Hjson w'. subst w'.
  rewrite (step_Settled_ui _ _ _ Hp), (settle_bad_json _ _ _ Hok Hjson).
  rewrite !list_entries_App_view, displayed_error_App_view.
  repeat split; reflexivity.
Qed.

Lemma malformed_json_is_a_failure_witness :
  pending 1 Samples.searching = true
  /\ ok Samples_bad_json = true
  /\ json Samples_bad_json = Rejected "Unexpected token < in JSON"
  /\ songs (ui (fst (step Samples.searching (Settled 1 (Fulfilled Samples_bad_json)))))
     = [Samples.aria; Samples.ballad]
  /\ error (ui (fst (step Samples.searching (Settled 1 (Fulfilled Samples_bad_json)))))
     = fetch_error_text.
Proof.
  split; [reflexivity|]. split; [reflexivity|]. split; [reflexivity|].
  destruct (malformed_json_is_a_failure Samples.searching 1 Samples_bad_json
              "Unexpected token < in JSON")
    as (Hs & He & _); [reflexivity | reflexivity | reflexivity |].
  split; [exact Hs | exact He].
Defined.

(** X2: the chain handles every outcome of [fetch]: it always ends
    fulfilled, and its effect on the state is one of two updates, the
    list replaced and the error cleared exactly when the status is a
    success and the body parses, the fixed error text set otherwise. *)
Theorem chain_handles_every_outcome (p : Promise Response) :
  (exists update, chain p = Fulfilled update)
  /\ forall s : AppState,
      (exists data, fetch_succeeded p = Some data
                    /\ settle p s = setError "" (setSongs data s))
      \/ (fetch_succeeded p = None /\ settle p s = setError fetch_error_text s).
Proof.
  unfold settle, chain, on_response.
  destruct p as [response|reason]; simpl.
  - destruct (ok response); simpl.
    + destruct (json response) as [data|e]; simpl.
      * split; [eexists; reflexivity|]. intros s. left. exists data. now split.
      * split; [eexists; reflexivity|]. intros s. now right.
    + split; [eexists; reflexivity|]. intros s. now right.
  - split; [eexists; reflexivity|]. intros s. now right.
Qed.

(** ** What a response leaves alone *)

Lemma control_value_input s : search_box_value (App_view s) = Some (keyword s).
Proof. reflexivity. Qed.

Lemma control_value_select s : select_value (App_view s) = Some (sortKey s).
Proof. reflexivity. Qed.

(** X3: handling a response, of whatever kind, issues no request and
    leaves the search box and the sort selection, in the state and on the
    page, as they were; the request is no longer pending afterwards. *)
Theorem response_keeps_controls (w : World) (rid : nat) (p : Promise Response) :
  committed w = true ->
  pending rid w = true ->
  let w' := fst (step w (Settled rid p)) in
  snd (step w (Settled rid p)) = []
  /\ keyword (ui w') = keyword (ui w)
  /\ sortKey (ui w') = sortKey (ui w)
  /\ search_box_value (App_view (ui w')) = search_box_value (App_view (ui w))
  /\ select_value (App_view (ui w')) = select_value (App_view (ui w))
  /\ pending rid w' = false.
Proof.
  intros Hc Hp w'. subst w'.
  rewrite (step_Settled_pending _ _ _ Hc Hp). simpl.
  destruct (settle_keeps_controls p (ui w)) as [Hk Hs].
  rewrite !control_value_input, !control_value_select, Hk, Hs.
  repeat split; try reflexivity.
  unfold pending. simpl. clear.
  induction (inflight w) as [|[k r] l IH]; [reflexivity|].
  simpl. destruct (Nat.eqb k rid) eqn:E; simpl; [exact IH|].
  now rewrite E.
Qed.

Lemma response_keeps_controls_witness :
  committed Samples.searching = true
  /\ pending 1 Samples.searching = true
  /\ search_box_value
       (App_view (ui (fst (step Samples.searching
                             (Settled 1 (Samples.ok_with [Samples.canon]))))))
     = Some "ar"
  /\ pending 1 (fst (step Samples.searching (Settled 1 (Samples.ok_with [Samples.canon]))))
     = false.
Proof.
  split; [reflexivity|]. split; [reflexivity|].
  destruct (response_keeps_controls Samples.searching 1 (Samples.ok_with [Samples.canon]))
    as (_ & _ & _ & Hbox & _ & Hgone); [reflexivity | reflexivity |].
  split; [exact Hbox | exact Hgone].
Defined.

(** X4: only a response changes what is displayed.  Typing, clicking the
    search button and changing the sort order leave the list and the
    error message as they are: a new request neither empties the list nor
    removes an error already shown. *)
Theorem display_changes_only_on_response (w : World) (ev : Event) :
  (forall rid p, ev <> Settled rid p) ->
  let w' := fst (step w ev) in
  songs (ui w') = songs (ui w)
  /\ error (ui w') = error (ui w)
  /\ list_entries (App_view (ui w')) = list_entries (App_view (ui w))
  /\ displayed_count (App_view (ui w')) = displayed_count (App_view (ui w))
  /\ displayed_error (App_view (ui w')) = displayed_error (App_view (ui w)).
Proof.
  intros Hev w'. subst w'.
  assert (H : songs (ui (fst (step w ev))) = songs (ui w)
              /\ error (ui (fst (step w ev))) = error (ui w)).
  { rewrite step_ui. destruct ev as [v| |o|rid p]; simpl; auto.
    now destruct (Hev rid p). }
  destruct H as [Hs He].
  rewrite !list_entries_App_view, !displayed_count_App_view, !displayed_error_App_view.
  rewrite Hs, He. repeat split; reflexivity.
Qed.

Lemma display_changes_only_on_response_witness :
  (forall rid p, SearchClick <> Settled rid p)
  /\ displayed_error (App_view (ui Samples_failed)) = Some fetch_error_text
  /\ displayed_error (App_view (ui (fst (step Samples_failed SearchClick))))
     = Some fetch_error_text
  /\ songs (ui (fst (step Samples_failed SearchClick))) = [Samples.aria; Samples.ballad].
Proof.
  assert (Hev : forall rid p, SearchClick <> Settled rid p) by discriminate.
  split; [exact Hev|]. split; [reflexivity|].
  destruct (display_changes_only_on_response Samples_failed SearchClick Hev)
    as (Hs & _ & _ & _ & Hd).
  split; [rewrite Hd; reflexivity | rewrite Hs; reflexivity].
Defined.

(** X5: with two requests pending, a failure followed by a success ends
    with the new list and no error paragraph; the same two responses in
    the other order end with the new list and the error paragraph over
    it. *)
Theorem error_follows_the_last_response (w : World) (i j : nat)
        (p_fail p_ok : Promise Response) (data : list Song) :
  pending i w = true ->
  pending j w = true ->
  i <> j ->
  fetch_failed p_fail = true ->
  fetch_succeeded p_ok = Some data ->
  let fail_then_ok := fst (step (fst (step w (Settled i p_fail))) (Settled j p_ok)) in
  let ok_then_fail := fst (step (fst (step w (Settled j p_ok))) (Settled i p_fail)) in
  songs (ui fail_then_ok) = data
  /\ displayed_error (App_view (ui fail_then_ok)) = None
  /\ songs (ui ok_then_fail) = data
  /\ displayed_error (App_view (ui ok_then_fail)) = Some fetch_error_text.
Proof.
  intros Hi Hj Hne Hf Hs a b. subst a b.
  assert (Hj1 : pending j (fst (step w (Settled i p_fail))) = true).
  { apply pending_step_other; [exact Hj|]. intros p [= E]. congruence. }
  assert (Hi1 : pending i (fst (step w (Settled j p_ok))) = true).
  { apply pending_step_other; [exact Hi|]. intros p [= E]. congruence. }
  rewrite (step_Settled_ui _ _ _ Hj1), (step_Settled_ui _ _ _ Hi1).
  rewrite (step_Settled_ui _ _ _ Hi), (step_Settled_ui _ _ _ Hj).
  rewrite !(settle_succeeded _ _ _ Hs), !(settle_failed _ _ Hf).
  rewrite !displayed_error_App_view. repeat split; reflexivity.
Qed.

Lemma error_follows_the_last_response_witness :
  pending 0 Samples.two_pending = true
  /\ pending 1 Samples.two_pending = true
  /\ 0 <> 1
  /\ fetch_failed Samples.offline = true
  /\ fetch_succeeded (Samples.ok_with [Samples.aria]) = Some [Samples.aria]
  /\ displayed_error
       (App_view (ui (fst (step (fst (step Samples.two_pending (Settled 0 Samples.offline)))
                                (Settled 1 (Samples.ok_with [Samples.aria]))))))
     = None
  /\ displayed_error
       (App_view (ui (fst (step (fst (step Samples.two_pending
                                        (Settled 1 (Samples.ok_with [Samples.aria]))))
                                (Settled 0 Samples.offline)))))
     = Some fetch_error_text.
Proof.
  split; [reflexivity|]. split; [reflexivity|]. split; [discriminate|].
  split; [reflexivity|]. split; [reflexivity|].
  destruct (error_follows_the_last_response Samples.two_pending 0 1
              Samples.offline (Samples.ok_with [Samples.aria]) [Samples.aria])
    as (_ & H1 & _ & H2);
    [reflexivity | reflexivity | discriminate | reflexivity | reflexivity |].
  split; [exact H1 | exact H2].
Defined.

(** ** More on the requests *)

Lemma build_params_explicit kw sk :
  build_params kw sk
  = ((if truthy kw then [("title_search", to_USVString kw)] else [])
     ++ (if truthy sk then [("sort_by", to_USVString sk)] else []))%list.
Proof. unfold build_params. destruct (truthy kw), (truthy sk); reflexivity. Qed.

(** X6: choosing the option that is already selected issues no request
    and changes nothing at all. *)
Theorem reselecting_current_option_is_idle (w : World) (o : SortOption) :
  committed w = true ->
  option_value o = sortKey (ui w) ->
  step w (SelectChange o) = (w, []).
Proof.
  intros Hc He. apply step_idle; [|exact Hc].
  simpl. rewrite He. now destruct w as [[sg er kw sk] deps fl n].
Qed.

Lemma reselecting_current_option_is_idle_witness :
  committed Samples.searching = true
  /\ option_value ById = sortKey (ui Samples.searching)
  /\ step Samples.searching (SelectChange ById) = (Samples.searching, []).
Proof.
  split; [reflexivity|]. split; [reflexivity|].
  apply (reselecting_current_option_is_idle Samples.searching ById); reflexivity.
Defined.

(** X7: the request issued by a change of the sort order also applies the
    text that is in the search box at that moment, clicked or not: its
    parameters are [title_search] with the [USVString] conversion of that
    text, when it is not empty, followed by [sort_by] with the new key;
    for a text without unpaired surrogates the value is the text
    itself. *)
Theorem sort_change_carries_search_text (w : World) (o : SortOption) :
  committed w = true ->
  option_value o <> sortKey (ui w) ->
  exists r : Request,
    snd (step w (SelectChange o)) = [r]
    /\ URLSearchParams.parse (query_of (req_url r))
       = ((if truthy (keyword (ui w))
           then [("title_search", to_USVString (keyword (ui w)))] else [])
          ++ [("sort_by", option_value o)])%list
    /\ (has_unpaired_surrogate (keyword (ui w)) = false ->
        URLSearchParams.parse (query_of (req_url r))
        = ((if truthy (keyword (ui w)) then [("title_search", keyword (ui w))] else [])
           ++ [("sort_by", option_value o)])%list).
Proof.
  intros Hc Hne.
  destruct (step_SelectChange_other w o Hc Hne) as [Hout _].
  exists (fetchSongs (setSortKey (option_value o) (ui w))).
  split; [exact Hout|].
  unfold fetchSongs. simpl req_url.
  rewrite parse_query_fetch_url, build_params_explicit. simpl keyword. simpl sortKey.
  rewrite option_value_truthy, to_USVString_option_value.
  split; [reflexivity|].
  intros Hwf. now rewrite (to_USVString_well_formed _ Hwf).
Qed.

Lemma sort_change_carries_search_text_witness :
  committed Samples.searching = true
  /\ option_value ByReleaseDate <> sortKey (ui Samples.searching)
  /\ has_unpaired_surrogate (keyword (ui Samples.searching)) = false
  /\ exists r : Request,
      snd (step Samples.searching (SelectChange ByReleaseDate)) = [r]
      /\ URLSearchParams.parse (query_of (req_url r))
         = [("title_search", "ar"); ("sort_by", "release_date")].
Proof.
  split; [reflexivity|]. split; [discriminate|]. split; [reflexivity|].
  destruct (sort_change_carries_search_text Samples.searching ByReleaseDate)
    as (r & Hout & _ & Hps); [reflexivity | discriminate |].
  exists r. split; [exact Hout|]. apply Hps. reflexivity.
Defined.

(** X8: typing and then clicking searches for the text just typed, with
    the sort key unchanged: the click handler is the one of the render
    that followed the typing.  The parameters are [title_search] with
    the [USVString] conversion of the typed text, when it is not empty,
    followed by [sort_by]; for a typed text without unpaired surrogates
    the value is the typed text itself. *)
Theorem typed_text_is_searched (w : World) (v : string) :
  committed w = true ->
  let typed := fst (step w (InputChange v)) in
  exists r : Request,
    snd (step typed SearchClick) = [r]
    /\ URLSearchParams.parse (query_of (req_url r))
       = ((if truthy v then [("title_search", to_USVString v)] else [])
          ++ (if truthy (sortKey (ui w))
              then [("sort_by", to_USVString (sortKey (ui w)))] else []))%list
    /\ (has_unpaired_surrogate v = false ->
        v <> "" ->
        URLSearchParams.get "title_search" (URLSearchParams.parse (query_of (req_url r)))
        = Some v).
Proof.
  intros Hc typed. subst typed.
  rewrite (step_InputChange _ _ Hc). simpl fst.
  assert (Hc' : committed (set_ui (setKeyword v (ui w)) w) = true)
    by now apply committed_set_ui.
  rewrite (step_SearchClick _ Hc').
  exists (fetchSongs (setKeyword v (ui w))). split; [reflexivity|].
  unfold fetchSongs. simpl req_url.
  rewrite parse_query_fetch_url. split.
  - now rewrite build_params_explicit.
  - intros Hwf Hne. apply truthy_true_iff in Hne.
    rewrite build_params_title_search. simpl keyword.
    now rewrite Hne, (to_USVString_well_formed _ Hwf).
Qed.

Lemma typed_text_is_searched_witness :
  committed Samples.searching = true
  /\ has_unpaired_surrogate "a&b=c d" = false
  /\ "a&b=c d" <> ""
  /\ exists r : Request,
      snd (step (fst (step Samples.searching (InputChange "a&b=c d")))
                SearchClick) = [r]
      /\ req_url r = "http://127.0.0.1:8000/songs/?title_search=a%26b%3Dc+d&sort_by=id"
      /\ URLSearchParams.get "title_search" (URLSearchParams.parse (query_of (req_url r)))
         = Some "a&b=c d".
Proof.
  split; [reflexivity|]. split; [reflexivity|]. split; [discriminate|].
  destruct (typed_text_is_searched Samples.searching "a&b=c d") as (r & Hout & _ & Hget);
    [reflexivity|].
  exists r. split; [exact Hout|].
  split; [|apply Hget; [reflexivity | discriminate]].
  assert (E : [r] = [fetchSongs (setKeyword "a&b=c d" (ui Samples.searching))])
    by (rewrite <- Hout; reflexivity).
  injection E as ->. reflexivity.
Defined.

(** X9: whatever the state, the request of [fetchSongs] is a GET to the
    endpoint, and the parameters a server reads from its URL are the
    ones appended, in the order [title_search], [sort_by], each present
    only for a non-empty value and each with the [USVString] conversion
    of that value: no character of the search text can add, split or
    drop a parameter, and a value without unpaired surrogates arrives as
    it is. *)
Theorem request_parameters_read_back (s : AppState) :
  req_method (fetchSongs s) = GET
  /\ resource_of (req_url (fetchSongs s)) = "http://127.0.0.1:8000/songs/"
  /\ URLSearchParams.parse (query_of (req_url (fetchSongs s)))
     = ((if truthy (keyword s) then [("title_search", to_USVString (keyword s))] else [])
        ++ (if truthy (sortKey s) then [("sort_by", to_USVString (sortKey s))] else []))%list
  /\ (has_unpaired_surrogate (keyword s) = false ->
      has_unpaired_surrogate (sortKey s) = false ->
      URLSearchParams.parse (query_of (req_url (fetchSongs s)))
      = ((if truthy (keyword s) then [("title_search", keyword s)] else [])
         ++ (if truthy (sortKey s) then [("sort_by", sortKey s)] else []))%list).
Proof.
  split; [reflexivity|]. split; [reflexivity|].
  unfold fetchSongs. simpl req_url.
  rewrite parse_query_fetch_url, build_params_explicit.
  split; [reflexivity|].
  intros Hk Hs.
  now rewrite (to_USVString_well_formed _ Hk), (to_USVString_well_formed _ Hs).
Qed.

Lemma request_parameters_read_back_witness :
  has_unpaired_surrogate (keyword (ui Samples.searching)) = false
  /\ has_unpaired_surrogate (sortKey (ui Samples.searching)) = false
  /\ URLSearchParams.parse (query_of (req_url (fetchSongs (ui Samples.searching))))
     = [("title_search", "ar"); ("sort_by", "id")].
Proof.
  split; [reflexivity|]. split; [reflexivity|].
  destruct (request_parameters_read_back (ui Samples.searching)) as (_ & _ & _ & Hps).
  apply Hps; reflexivity.
Defined.

(** ** The text of the URL *)

Lemma append_assoc_string (a b c : string) : (a ++ b) ++ c = a ++ (b ++ c).
Proof. induction a as [|x a IH]; simpl; [reflexivity|]. now rewrite IH. Qed.

Lemma encode_option_value o : URLSearchParams.encode (option_value o) = option_value o.
Proof. destruct o; reflexivity. Qed.

Lemma append_empty_r (a : string) : a ++ "" = a.
Proof. induction a as [|x a IH]; simpl; [reflexivity|]. now rewrite IH. Qed.

Lemma fetch_url_parts (kw sk : string) :
  fetch_url kw sk
  = "http://127.0.0.1:8000/songs/?"
    ++ (if truthy kw then "title_search=" ++ URLSearchParams.encode (to_USVString kw) else "")
    ++ (if truthy kw && truthy sk then "&" else "")
    ++ (if truthy sk then "sort_by=" ++ URLSearchParams.encode (to_USVString sk) else "").
Proof.
  unfold fetch_url, build_params.
  destruct (truthy kw), (truthy sk); try reflexivity.
  cbn [andb]. rewrite !append_empty_r. reflexivity.
Qed.

(** X10: the URL text.  The endpoint and a question mark are always
    there, also when both values are empty; then [title_search=] with the
    encoded search text when it is not empty, [&] between the two when
    both are there, and [sort_by=] with the encoded key when it is not
    empty; the three option values are written as they are.  What is
    encoded is the [USVString] conversion made by [append], which is the
    value itself when it has no unpaired surrogate. *)
Theorem fetch_url_text (kw sk : string) :
  fetch_url kw sk
  = "http://127.0.0.1:8000/songs/?"
    ++ (if truthy kw then "title_search=" ++ URLSearchParams.encode (to_USVString kw) else "")
    ++ (if truthy kw && truthy sk then "&" else "")
    ++ (if truthy sk then "sort_by=" ++ URLSearchParams.encode (to_USVString sk) else "")
  /\ (forall o : SortOption,
      fetch_url kw (option_value o)
      = "http://127.0.0.1:8000/songs/?"
        ++ (if truthy kw
            then "title_search=" ++ URLSearchParams.encode (to_USVString kw) ++ "&" else "")
        ++ "sort_by=" ++ option_value o)
  /\ (has_unpaired_surrogate kw = false ->
      has_unpaired_surrogate sk = false ->
      fetch_url kw sk
      = "http://127.0.0.1:8000/songs/?"
        ++ (if truthy kw then "title_search=" ++ URLSearchParams.encode kw else "")
        ++ (if truthy kw && truthy sk then "&" else "")
        ++ (if truthy sk then "sort_by=" ++ URLSearchParams.encode sk else "")).
Proof.
  split; [apply fetch_url_parts|]. split.
  - intros o.
    rewrite fetch_url_parts, option_value_truthy, to_USVString_option_value,
      encode_option_value.
    f_equal. destruct (truthy kw); cbn [andb].
    + rewrite !append_assoc_string. reflexivity.
    + reflexivity.
  - intros Hk Hs. rewrite fetch_url_parts.
    now rewrite (to_USVString_well_formed _ Hk), (to_USVString_well_formed _ Hs).
Qed.

Lemma fetch_url_text_witness :
  has_unpaired_surrogate "日本 語" = false
  /\ has_unpaired_surrogate "title" = false
  /\ fetch_url "日本 語" "title"
     = "http://127.0.0.1:8000/songs/?title_search=" ++ URLSearchParams.encode "日本 語"
       ++ "&sort_by=title"
  /\ fetch_url "日本 語" "title"
     = "http://127.0.0.1:8000/songs/?title_search=%E6%97%A5%E6%9C%AC+%E8%AA%9E&sort_by=title".
Proof.
  split; [reflexivity|]. split; [reflexivity|].
  destruct (fetch_url_text "日本 語" "title") as (_ & _ & Hplain).
  split; [|reflexivity].
  rewrite (Hplain eq_refl eq_refl). reflexivity.
Defined.

Lemma all_chars_app f a b : all_chars f (a ++ b) = all_chars f a && all_chars f b.
Proof.
  induction a as [|c a IH]; simpl; [reflexivity|].
  now rewrite IH, andb_assoc.
Qed.

Lemma all_chars_weaken (f g : ascii -> bool) s :
  (forall c, f c = true -> g c = true) ->
  all_chars f s = true -> all_chars g s = true.
Proof.
  intros Hfg. induction s as [|c s IH]; simpl; [reflexivity|].
  intros H. apply andb_true_iff in H as [Hc Hs].
  now rewrite (Hfg c Hc), (IH Hs).
Qed.

Lemma all_chars_not_occurs f c s :
  f c = false -> all_chars f s = true -> occurs c s = false.
Proof.
  intros Hc. induction s as [|d s IH]; simpl; [reflexivity|].
  intros H. apply andb_true_iff in H as [Hd Hs].
  rewrite (IH Hs), orb_false_r.
  destruct (Ascii.eqb_spec d c) as [->|]; [congruence | reflexivity].
Qed.

Lemma encode_byte_safe c : all_chars url_safe (URLSearchParams.encode_byte c) = true.
Proof. URLFacts.each_byte c; reflexivity. Qed.

Lemma encode_safe s : all_chars url_safe (URLSearchParams.encode s) = true.
Proof.
  induction s as [|c s IH]; simpl; [reflexivity|].
  now rewrite all_chars_app, encode_byte_safe, IH.
Qed.

Lemma url_safe_query_char c : url_safe c = true -> query_char c = true.
Proof. unfold query_char. now intros ->. Qed.

Lemma encode_pair_query_chars p :
  all_chars query_char (URLSearchParams.encode_pair p) = true.
Proof.
  unfold URLSearchParams.encode_pair.
  rewrite all_chars_app. simpl.
  now rewrite !(all_chars_weaken _ _ _ url_safe_query_char (encode_safe _)).
Qed.

Lemma toString_query_chars ps :
  all_chars query_char (URLSearchParams.toString ps) = true.
Proof.
  induction ps as [|p rest IH]; [reflexivity|].
  destruct rest as [|q rest].
  - apply encode_pair_query_chars.
  - change (URLSearchParams.toString (p :: q :: rest))
      with (URLSearchParams.encode_pair p
            ++ String "&" (URLSearchParams.toString (q :: rest))).
    rewrite all_chars_app, encode_pair_query_chars. simpl. exact IH.
Qed.

(** X11: whatever is typed, the query of the URL consists of ASCII
    letters, digits, [* - . _ + %] and the separators [=] and [&] only;
    so the URL has no space and no [#], and no [?] after the one that
    follows the endpoint. *)
Theorem fetch_url_is_safe (kw sk : string) :
  all_chars query_char (query_of (fetch_url kw sk)) = true
  /\ occurs " " (fetch_url kw sk) = false
  /\ occurs "#" (fetch_url kw sk) = false
  /\ occurs "?" (query_of (fetch_url kw sk)) = false.
Proof.
  pose proof (toString_query_chars (build_params kw sk)) as Hq.
  rewrite query_of_fetch_url. split; [exact Hq|].
  unfold fetch_url. rewrite !URLFacts.occurs_app.
  rewrite (all_chars_not_occurs query_char " " _ eq_refl Hq).
  rewrite (all_chars_not_occurs query_char "#" _ eq_refl Hq).
  rewrite (all_chars_not_occurs query_char "?" _ eq_refl Hq).
  repeat split; reflexivity.
Qed.

(** ** The list on the page *)

(** X12: a release date that is a non-empty string is shown as it is,
    without reformatting. *)
Theorem release_date_shown_verbatim (song : Song) (d : string) :
  release_date song = Some d ->
  d <> "" ->
  entry_date_text (render_song song) = Some d.
Proof.
  intros Hd Hne. rewrite entry_date_text_render_song, Hd.
  now rewrite (js_or_truthy _ _ Hne).
Qed.

Lemma release_date_shown_verbatim_witness :
  release_date Samples.aria = Some "2024-01-01"
  /\ "2024-01-01" <> ""
  /\ entry_date_text (render_song Samples.aria) = Some "2024-01-01".
Proof.
  split; [reflexivity|]. split; [discriminate|].
  apply (release_date_shown_verbatim Samples.aria "2024-01-01");
    [reflexivity | discriminate].
Defined.

(** X13: the page lists the songs of the state as they are: titles and
    keys in the order of the list, nothing filtered out, sorted or
    merged on the client; the search text and the sort key of the state
    have no influence on the entries. *)
Theorem entries_mirror_songs (s : AppState) :
  map entry_title_text (list_entries (App_view s))
  = map (fun song => Some (title song)) (songs s)
  /\ map entry_key (list_entries (App_view s))
     = map (fun song => Some (id song)) (songs s)
  /\ forall kw sk : string,
      list_entries (App_view (setKeyword kw (setSortKey sk s)))
      = list_entries (App_view s).
Proof.
  rewrite list_entries_App_view, !map_map. split; [|split].
  - apply map_ext. reflexivity.
  - apply map_ext. reflexivity.
  - intros kw sk. now rewrite list_entries_App_view.
Qed.

(** ** Repeated clicks *)

Lemma click_run w sent n :
  committed w = true ->
  run_from w sent (repeat SearchClick n)
  = ({| ui := ui w; effect_deps := effect_deps w;
        inflight := (inflight w
                     ++ combine (seq (next_id w) n) (repeat (fetchSongs (ui w)) n))%list;
        next_id := next_id w + n |},
     (sent ++ repeat (fetchSongs (ui w)) n)%list).
Proof.
  revert w sent. induction n as [|n IH]; intros w sent Hc.
  - simpl. rewrite !app_nil_r, Nat.add_0_r. now destruct w.
  - cbn [repeat run_from]. rewrite (step_SearchClick _ Hc).
    unfold call_fetchSongs at 1.
    rewrite IH by exact Hc. cbn [ui effect_deps inflight next_id seq combine].
    rewrite <- !app_assoc. cbn [app].
    now rewrite Nat.add_succ_r.
Qed.

(** X14: clicks are neither debounced nor deduplicated.  [n] clicks in a
    row send [n] identical requests, all of them pending afterwards next
    to the ones that were pending before, and the page state is
    untouched. *)
Theorem clicks_are_not_deduplicated (w : World) (n : nat) :
  committed w = true ->
  snd (click_times n w) = repeat (fetchSongs (ui w)) n
  /\ ui (fst (click_times n w)) = ui w
  /\ map snd (inflight (fst (click_times n w)))
     = (map snd (inflight w) ++ repeat (fetchSongs (ui w)) n)%list
  /\ List.length (inflight (fst (click_times n w))) = List.length (inflight w) + n.
Proof.
  intros Hc. unfold click_times. rewrite (click_run _ _ _ Hc). simpl.
  assert (Hlen : List.length (combine (seq (next_id w) n)
                                      (repeat (fetchSongs (ui w)) n)) = n).
  { rewrite length_combine, length_seq, repeat_length. apply Nat.min_id. }
  assert (Hsnd : map snd (combine (seq (next_id w) n) (repeat (fetchSongs (ui w)) n))
                 = repeat (fetchSongs (ui w)) n).
  { generalize (next_id w). induction n as [|n IH]; intros k; simpl; [reflexivity|].
    rewrite IH; [reflexivity|].
    rewrite length_combine, length_seq, repeat_length. apply Nat.min_id. }
  rewrite map_app, length_app, Hsnd, Hlen. repeat split; reflexivity.
Qed.

Lemma clicks_are_not_deduplicated_witness :
  committed Samples.searching = true
  /\ snd (click_times 3 Samples.searching)
     = [ {| req_method := GET;
            req_url := "http://127.0.0.1:8000/songs/?title_search=ar&sort_by=id" |};
         {| req_method := GET;
            req_url := "http://127.0.0.1:8000/songs/?title_search=ar&sort_by=id" |};
         {| req_method := GET;
            req_url := "http://127.0.0.1:8000/songs/?title_search=ar&sort_by=id" |} ]
  /\ List.length (inflight (fst (click_times 3 Samples.searching))) = 4.
Proof.
  split; [reflexivity|].
  destruct (clicks_are_not_deduplicated Samples.searching 3) as (Hsent & _ & _ & Hlen);
    [reflexivity|].
  split; [rewrite Hsent; reflexivity | rewrite Hlen; reflexivity].
Defined.

(** ** Plain search text and the number of requests *)

Lemma encode_unreserved s :
  all_chars URLSearchParams.is_unreserved s = true -> URLSearchParams.encode s = s.
Proof.
  induction s as [|c s IH]; simpl; [reflexivity|].
  intros H. apply andb_true_iff in H as [Hc Hs].
  unfold URLSearchParams.encode_byte. rewrite Hc. simpl. now rewrite (IH Hs).
Qed.

(** X18: a search text made of ASCII letters, digits and [* - . _] is
    written into the URL as it is, between [title_search=] and
    [&sort_by=]. *)
Theorem plain_search_text_is_verbatim (kw : string) (o : SortOption) :
  all_chars URLSearchParams.is_unreserved kw = true ->
  kw <> "" ->
  fetch_url kw (option_value o)
  = "http://127.0.0.1:8000/songs/?title_search=" ++ kw ++ "&sort_by=" ++ option_value o.
Proof.
  intros Hplain Hne. apply truthy_true_iff in Hne.
  rewrite fetch_url_parts, Hne, option_value_truthy, to_USVString_option_value,
    encode_option_value.
  rewrite (to_USVString_well_formed _ (unreserved_no_surrogate _ Hplain)).
  rewrite (encode_unreserved _ Hplain). cbn [andb].
  rewrite !append_assoc_string. reflexivity.
Qed.

Lemma plain_search_text_is_verbatim_witness :
  all_chars URLSearchParams.is_unreserved "Aria_2024" = true
  /\ "Aria_2024" <> ""
  /\ fetch_url "Aria_2024" (option_value ByTitle)
     = "http://127.0.0.1:8000/songs/?title_search=Aria_2024&sort_by=title".
Proof.
  split; [reflexivity|]. split; [discriminate|].
  apply (plain_search_text_is_verbatim "Aria_2024" ByTitle); [reflexivity | discriminate].
Defined.

Lemma step_out_le_one w ev :
  committed w = true -> List.length (snd (step w ev)) <= 1.
Proof.
  intros Hc. destruct ev as [v| |o|rid p].
  - rewrite (step_InputChange _ _ Hc). simpl. lia.
  - rewrite (step_SearchClick _ Hc). simpl. lia.
  - destruct (String.eqb_spec (option_value o) (sortKey (ui w))) as [He|Hne].
    + destruct (step_SelectChange_same w o Hc He) as [-> _]. simpl. lia.
    + destruct (step_SelectChange_other w o Hc Hne) as [-> _]. simpl. lia.
  - destruct (pending rid w) eqn:Hp.
    + rewrite (step_Settled_pending _ _ _ Hc Hp). simpl. lia.
    + rewrite (step_Settled_unknown _ _ _ Hc Hp). simpl. lia.
Qed.

Lemma run_from_count w sent evs :
  committed w = true ->
  List.length sent <= List.length (snd (run_from w sent evs))
  /\ List.length (snd (run_from w sent evs)) <= List.length sent + List.length evs.
Proof.
  revert w sent. induction evs as [|ev evs IH]; intros w sent Hc; simpl; [lia|].
  pose proof (step_out_le_one w ev Hc) as Hle.
  pose proof (step_committed w ev) as Hc'.
  destruct (step w ev) as [w' out]. simpl in *.
  destruct (IH w' (sent ++ out)%list Hc') as [H1 H2].
  rewrite length_app in H1, H2. lia.
Qed.

(** X19: no event makes the mounted page fetch twice: each event issues
    at most one request, so a run of [n] events after mounting has sent
    at least one and at most [n + 1] requests. *)
Theorem at_most_one_request_per_event :
  (forall (w : World) (ev : Event),
      committed w = true -> List.length (snd (step w ev)) <= 1)
  /\ (forall evs : list Event,
         1 <= List.length (snd (run evs))
         /\ List.length (snd (run evs)) <= 1 + List.length evs).
Proof.
  split; [exact step_out_le_one|].
  intros evs. unfold run.
  destruct (run_from_count (fst mount) (snd mount) evs) as [H1 H2]; [reflexivity|].
  exact (conj H1 H2).
Qed.

Lemma at_most_one_request_per_event_witness :
  committed Samples.two_pending = true
  /\ List.length (snd (step Samples.two_pending (SelectChange ByTitle))) <= 1.
Proof.
  split; [reflexivity|].
  apply (proj1 at_most_one_request_per_event Samples.two_pending (SelectChange ByTitle)).
  reflexivity.
Defined.
